(** * SplineLoader: keyframe spline animation (src/src/scripts/splineLoader.js)

    Shallow embedding of the [SplineLoader] class.  JavaScript numbers are
    modelled as exact rationals [Q]; the conversion of the position buffer to
    a [Float32BufferAttribute] is not modelled (the buffer is kept as the list
    of numbers pushed into [positions]).  Object identity of keyframes
    ([prevFrame === nextFrame]) is modelled by the frame's index in the
    track, since every keyframe is a distinct object of the parsed JSON.
    A thrown JavaScript exception is an [Err] result; the loader object keeps
    the mutations done before the throw. *)

From Stdlib Require Import QArith Qminmax Qround ZArith List String Bool Lia Lqa.
Import ListNotations.

Open Scope Q_scope.

(** ** Data model *)

Record Point3 := mkPoint3 { x : Q; y : Q; z : Q }.

Record ControlPoint := mkControlPoint {
  knot : Point3;
  inHandle : Point3;
  outHandle : Point3
}.

(** A curve segment: [curve.splineIndex] and [curve.points] (the JSON
    fields may be absent). *)
Record Curve := mkCurve {
  splineIndex : option Z;
  curvePoints : option (list ControlPoint)
}.

(** A keyframe: [frame.frame], and the optional [frame.curves] /
    [frame.points] arrays. *)
Record Frame := mkFrame {
  frame : Z;
  curves : option (list Curve);
  points : option (list Point3)
}.

(** [data.metadata]: [frameRate] and [closed], both optional. *)
Record Metadata := mkMetadata {
  frameRate : option Q;
  metaClosed : option bool
}.

(** A spline object built by [parseSplineData]; [position] is the
    ['position'] attribute of [spline.geometry] ([None] before any
    [setAttribute]); [material] and [visible] stand for the mesh's
    externally owned material reference and visibility flag. *)
Record Spline := mkSpline {
  name : string;
  frames : list Frame;
  position : option (list Q);
  material : nat;
  visible : bool;
  closed : bool
}.

(** The fields of a [SplineLoader] instance. *)
Record Loader := mkLoader {
  splines : list Spline;
  currentTime : Q;
  duration : Q;
  isPlaying : bool;
  loop : bool;
  speed : Q;
  metadata : Metadata
}.

Inductive JsError := TypeError (msg : string).

Inductive Result (A : Type) :=
| Ok (a : A)
| Err (e : JsError).
Arguments Ok {A} a.
Arguments Err {A} e.

(** How a public method call ended: it returned, or an exception escaped. *)
Inductive Outcome := Returned | Threw (e : JsError).

(** ** Library functions used by the code *)

(** [THREE.MathUtils.lerp(x, y, t) = (1 - t) * x + t * y]. *)
Definition lerp (a b t : Q) : Q := (1 - t) * a + t * b.

Definition lerp3 (p1 p2 : Point3) (t : Q) : Point3 :=
  mkPoint3 (lerp (x p1) (x p2) t) (lerp (y p1) (y p2) t) (lerp (z p1) (z p2) t).

(** three.js [CubicBezier(t, p0, p1, p2, p3)] (Interpolations.js). *)
Definition CubicBezier (t p0 p1 p2 p3 : Q) : Q :=
  let k := 1 - t in
  k * k * k * p0 + 3 * k * k * t * p1 + 3 * (1 - t) * t * t * p2 + t * t * t * p3.

(** [new THREE.CubicBezierCurve3(v0, v1, v2, v3).getPoint(t)]. *)
Definition bezierPoint (v0 v1 v2 v3 : Point3) (t : Q) : Point3 :=
  mkPoint3 (CubicBezier t (x v0) (x v1) (x v2) (x v3))
           (CubicBezier t (y v0) (y v1) (y v2) (y v3))
           (CubicBezier t (z v0) (z v1) (z v2) (z v3)).

(** [curve.getPoints(divisions)]: the points at [d / divisions] for
    [d = 0 .. divisions]. *)
Definition getPoints (v0 v1 v2 v3 : Point3) (divisions : nat) : list Point3 :=
  map (fun d => bezierPoint v0 v1 v2 v3
                  (inject_Z (Z.of_nat d) / inject_Z (Z.of_nat divisions)))
      (seq 0 (S divisions)).

(** JavaScript [a % d] on numbers: the remainder of the division truncated
    toward zero (it has the sign of [a]). *)
Definition jsTrunc (q : Q) : Z :=
  if Qle_bool 0 q then Qfloor q else (- Qfloor (- q))%Z.

Definition jsMod (a d : Q) : Q := a - d * inject_Z (jsTrunc (a / d)).

(** JavaScript truthiness of an optional number field ([0] is falsy). *)
Definition truthyZ (o : option Z) : option Z :=
  match o with
  | Some k => if Z.eqb k 0 then None else Some k
  | None => None
  end.

(** [this.metadata.frameRate || 30]. *)
Definition frameRateOf (m : Metadata) : Q :=
  match frameRate m with
  | Some r => if Qeq_bool r 0 then 30 else r
  | None => 30
  end.

(** ** SplineLoader methods *)

(** [interpolatePoints(points1, points2, t)]: reading [.length] of an
    absent array throws a [TypeError]. *)
Definition interpolatePoints (points1 points2 : option (list Point3)) (t : Q)
  : Result (list Point3) :=
  match points1, points2 with
  | Some p1, Some p2 => Ok (map (fun '(a, b) => lerp3 a b t) (combine p1 p2))
  | _, _ => Err (TypeError "Cannot read properties of undefined (reading 'length')")
  end.

Definition lerpControlPoint (p1 p2 : ControlPoint) (t : Q) : ControlPoint :=
  mkControlPoint (lerp3 (knot p1) (knot p2) t)
                 (lerp3 (inHandle p1) (inHandle p2) t)
                 (lerp3 (outHandle p1) (outHandle p2) t).

(** The body of the loop of [interpolateBezierCurves] over the pairs
    [(curves1[i], curves2[i])], from index [i]. *)
Fixpoint interpolateCurvePairs (cs : list (Curve * Curve)) (i : nat) (t : Q)
  : list Curve :=
  match cs with
  | [] => []
  | (curve1, curve2) :: rest =>
      match curvePoints curve1, curvePoints curve2 with
      | Some ps1, Some ps2 =>
          let interpolatedPoints :=
            map (fun '(p1, p2) => lerpControlPoint p1 p2 t) (combine ps1 ps2) in
          let idx :=
            match truthyZ (splineIndex curve1) with
            | Some k => k
            | None =>
                match truthyZ (splineIndex curve2) with
                | Some k => k
                | None => Z.of_nat (i + 1)
                end
            end in
          mkCurve (Some idx) (Some interpolatedPoints)
            :: interpolateCurvePairs rest (S i) t
      | _, _ => interpolateCurvePairs rest (S i) t
      end
  end.

(** [interpolateBezierCurves(curves1, curves2, t)]. *)
Definition interpolateBezierCurves (curves1 curves2 : list Curve) (t : Q)
  : list Curve :=
  interpolateCurvePairs (combine curves1 curves2) 0 t.

(** Consecutive pairs [(bezierPoints[i], bezierPoints[i + 1])]. *)
Fixpoint consecutivePairs (l : list ControlPoint) : list (ControlPoint * ControlPoint) :=
  match l with
  | a :: ((b :: _) as rest) => (a, b) :: consecutivePairs rest
  | _ => []
  end.

(** [generateBezierCurve(bezierPoints, segments)]. *)
Definition generateBezierCurve (bezierPoints : list ControlPoint) (segments : nat)
  : list Point3 :=
  if Nat.ltb (List.length bezierPoints) 2 then []
  else
    let curvePoints :=
      flat_map (fun '(current, next) =>
                  getPoints (knot current) (outHandle current)
                            (inHandle next) (knot next) segments)
               (consecutivePairs bezierPoints) in
    match bezierPoints with
    | [point] => curvePoints ++ [knot point]
    | _ => curvePoints
    end.

(** The value of [interpolatedData]: [frame.curves || frame.points], or the
    result of one of the two interpolations. *)
Inductive Data :=
| DCurves (cs : list Curve)
| DPoints (ps : list Point3).

Definition frameData (f : Frame) : option Data :=
  match curves f with
  | Some cs => Some (DCurves cs)
  | None =>
      match points f with
      | Some ps => Some (DPoints ps)
      | None => None
      end
  end.

Definition xyz (p : Point3) : list Q := [x p; y p; z p].

(** The [positions] array built from [interpolatedData], before closing.
    The first branch runs over every array; an element without a [points]
    array is skipped.  A [Point3] has no [points] field, so raw point data
    adds nothing; the [else if] branch repeats the same test and is never
    taken. *)
Definition generatePositions (d : option Data) : list Q :=
  match d with
  | Some (DCurves cs) =>
      flat_map (fun curve =>
                  match curvePoints curve with
                  | Some ps => flat_map xyz (generateBezierCurve ps 20)
                  | None => []
                  end) cs
  | Some (DPoints ps) => flat_map (fun _ : Point3 => []) ps
  | None => []
  end.

(** [if (spline.closed && positions.length > 0) positions.push(...)]. *)
Definition closePositions (isClosed : bool) (positions : list Q) : list Q :=
  if isClosed && Nat.ltb 0 (List.length positions)
  then positions ++ firstn 3 positions
  else positions.

(** The keyframe scan of [updateSplineGeometry]: returns [prevFrame] and
    [nextFrame], each with its index in the track. *)
Fixpoint scanFrames (fs : list Frame) (i : nat) (targetFrame : Q)
         (prevFrame : option (nat * Frame)) : option (nat * Frame) * option (nat * Frame) :=
  match fs with
  | [] => (prevFrame, None)
  | f :: rest =>
      let prevFrame' :=
        if Qle_bool (inject_Z (frame f)) targetFrame then Some (i, f) else prevFrame in
      if Qle_bool targetFrame (inject_Z (frame f))
      then (prevFrame', Some (i, f))
      else scanFrames rest (S i) targetFrame prevFrame'
  end.

(** The bracket after the edge cases: [None] when no frame is available. *)
Definition findBracket (fs : list Frame) (targetFrame : Q)
  : option ((nat * Frame) * (nat * Frame)) :=
  match scanFrames fs 0 targetFrame None with
  | (None, None) => None
  | (Some p, None) => Some (p, p)
  | (None, Some n) => Some (n, n)
  | (Some p, Some n) => Some (p, n)
  end.

Definition setPosition (s : Spline) (ps : list Q) : Spline :=
  mkSpline (name s) (frames s) (Some ps) (material s) (visible s) (closed s).

(** [updateSplineGeometry(spline, time)]: the updated spline object. *)
Definition updateSplineGeometry (m : Metadata) (s : Spline) (time : Q) : Result Spline :=
  let targetFrame := time * frameRateOf m in
  match findBracket (frames s) targetFrame with
  | None => Ok s
  | Some ((pi, prevFrame), (ni, nextFrame)) =>
      let interpolatedData :=
        if Nat.eqb pi ni then Ok (frameData prevFrame)
        else
          let frameDiff := inject_Z (frame nextFrame - frame prevFrame) in
          let t := if Qeq_bool frameDiff 0 then 0
                   else (targetFrame - inject_Z (frame prevFrame)) / frameDiff in
          match curves prevFrame, curves nextFrame with
          | Some c1, Some c2 => Ok (Some (DCurves (interpolateBezierCurves c1 c2 t)))
          | _, _ =>
              match interpolatePoints (points prevFrame) (points nextFrame) t with
              | Ok ps => Ok (Some (DPoints ps))
              | Err e => Err e
              end
          end in
      match interpolatedData with
      | Err e => Err e
      | Ok d => Ok (setPosition s (closePositions (closed s) (generatePositions d)))
      end
  end.

(** [updateSplines()]: [updateSplineGeometry] on each spline in turn; an
    exception stops the [forEach], the splines already updated keep their
    new geometry. *)
Fixpoint updateSplinesList (m : Metadata) (time : Q) (ss : list Spline)
  : list Spline * Outcome :=
  match ss with
  | [] => ([], Returned)
  | s :: rest =>
      match updateSplineGeometry m s time with
      | Ok s' => let '(rest', o) := updateSplinesList m time rest in (s' :: rest', o)
      | Err e => (s :: rest, Threw e)
      end
  end.

Definition withSplines (l : Loader) (ss : list Spline) : Loader :=
  mkLoader ss (currentTime l) (duration l) (isPlaying l) (loop l) (speed l) (metadata l).

Definition withTime (l : Loader) (ct : Q) : Loader :=
  mkLoader (splines l) ct (duration l) (isPlaying l) (loop l) (speed l) (metadata l).

Definition withPlaying (l : Loader) (p : bool) : Loader :=
  mkLoader (splines l) (currentTime l) (duration l) p (loop l) (speed l) (metadata l).

Definition updateSplines (l : Loader) : Loader * Outcome :=
  let '(ss, o) := updateSplinesList (metadata l) (currentTime l) (splines l) in
  (withSplines l ss, o).

(** [update(deltaTime)]. *)
Definition update (l : Loader) (deltaTime : Q) : Loader * Outcome :=
  if negb (isPlaying l) || Qeq_bool (duration l) 0 then (l, Returned)
  else
    let l1 := withTime l (currentTime l + deltaTime * speed l) in
    let l2 :=
      if loop l then withTime l1 (jsMod (currentTime l1) (duration l1))
      else
        let l3 := withTime l1 (Qmin (currentTime l1) (duration l1)) in
        if Qle_bool (duration l3) (currentTime l3) then withPlaying l3 false else l3 in
    updateSplines l2.

(** [setTime(time)]. *)
Definition setTime (l : Loader) (time : Q) : Loader * Outcome :=
  updateSplines (withTime l (Qmax 0 (Qmin time (duration l)))).

(** [setProgress(progress)]. *)
Definition setProgress (l : Loader) (progress : Q) : Loader * Outcome :=
  let clampedProgress := Qmax 0 (Qmin 1 progress) in
  setTime l (clampedProgress * duration l).

(** [play()], [pause()], [stop()]. *)
Definition play (l : Loader) : Loader * Outcome := (withPlaying l true, Returned).

Definition pause (l : Loader) : Loader * Outcome := (withPlaying l false, Returned).

Definition stop (l : Loader) : Loader * Outcome :=
  updateSplines (withTime (withPlaying l false) 0).

(** The public operations of the playback controller. *)
Inductive Op :=
| OpPlay | OpPause | OpStop
| OpSetTime (time : Q) | OpSetProgress (progress : Q) | OpUpdate (deltaTime : Q).

Definition runOp (l : Loader) (op : Op) : Loader * Outcome :=
  match op with
  | OpPlay => play l
  | OpPause => pause l
  | OpStop => stop l
  | OpSetTime t => setTime l t
  | OpSetProgress p => setProgress l p
  | OpUpdate dt => update l dt
  end.

(** [getProgress()]. *)
Definition getProgress (l : Loader) : Q :=
  if negb (Qle_bool (duration l) 0) then currentTime l / duration l else 0.

(** [getCurrentTime()]. *)
Definition getCurrentTime (l : Loader) : Q := currentTime l.

(** [getSplineByName(name)]: [this.splines.find(...) || null]. *)
Definition getSplineByName (l : Loader) (nm : string) : option Spline :=
  find (fun s => String.eqb (name s) nm) (splines l).

(** Mutating the object [find] returns: the first spline named [nm] is
    changed by [f], the others are left alone. *)
Fixpoint updateFirstNamed (f : Spline -> Spline) (nm : string) (ss : list Spline)
  : list Spline :=
  match ss with
  | [] => []
  | s :: rest =>
      if String.eqb (name s) nm then f s :: rest else s :: updateFirstNamed f nm rest
  end.

Definition withMaterial (mat : nat) (s : Spline) : Spline :=
  mkSpline (name s) (frames s) (position s) mat (visible s) (closed s).

Definition withVisible (v : bool) (s : Spline) : Spline :=
  mkSpline (name s) (frames s) (position s) (material s) v (closed s).

(** [setSplineMaterial(name, material)]; every spline in [this.splines] has
    its [mesh] (it is created before the spline is pushed). *)
Definition setSplineMaterial (l : Loader) (nm : string) (mat : nat) : Loader :=
  withSplines l (updateFirstNamed (withMaterial mat) nm (splines l)).

(** [setSplineVisibility(name, visible)]. *)
Definition setSplineVisibility (l : Loader) (nm : string) (v : bool) : Loader :=
  withSplines l (updateFirstNamed (withVisible v) nm (splines l)).

(** [dispose()]: the geometries and materials are released (not modelled)
    and [this.splines] becomes empty. *)
Definition dispose (l : Loader) : Loader := withSplines l [].

(** ** Parsing *)

(** One entry of [data.splines]: [name] and [frames]. *)
Record SplineData := mkSplineData {
  inName : string;
  inFrames : list Frame
}.

(** The parsed JSON payload: [data.metadata] and [data.splines]. *)
Record SplineAsset := mkSplineAsset {
  assetMetadata : option Metadata;
  assetSplines : option (list SplineData)
}.

(** [this.metadata.closed || false]. *)
Definition closedOf (m : Metadata) : bool :=
  match metaClosed m with Some b => b | None => false end.

(** The spline object built for [splineData] before its initial geometry;
    material [0] stands for its fresh [LineBasicMaterial]. *)
Definition initialSpline (m : Metadata) (sd : SplineData) : Spline :=
  mkSpline (inName sd) (inFrames sd) None 0 true (closedOf m).

(** [splineData.frames.forEach(frame => maxFrame = Math.max(maxFrame, frame.frame))]. *)
Definition maxFrameOver (maxFrame : Q) (fs : list Frame) : Q :=
  fold_left (fun acc f => Qmax acc (inject_Z (frame f))) fs maxFrame.

(** The [data.splines.forEach] loop of [parseSplineData]: the splines
    pushed so far, the running [maxFrame], and how the loop ended (an
    exception of [updateSplineGeometry] ends it before the push). *)
Fixpoint parseSplines (m : Metadata) (sds : list SplineData) (acc : list Spline)
         (maxFrame : Q) : list Spline * Q * Outcome :=
  match sds with
  | [] => (acc, maxFrame, Returned)
  | sd :: rest =>
      let maxFrame' := maxFrameOver maxFrame (inFrames sd) in
      match updateSplineGeometry m (initialSpline m sd) 0 with
      | Ok s => parseSplines m rest (acc ++ [s]) maxFrame'
      | Err e => (acc, maxFrame', Threw e)
      end
  end.

(** [data.metadata || {}]. *)
Definition metadataOf (data : SplineAsset) : Metadata :=
  match assetMetadata data with
  | Some m => m
  | None => mkMetadata None None
  end.

(** [parseSplineData(data)]. *)
Definition parseSplineData (l : Loader) (data : SplineAsset) : Loader * Outcome :=
  let m := metadataOf data in
  let l0 := mkLoader [] (currentTime l) (duration l) (isPlaying l) (loop l) (speed l) m in
  match assetSplines data with
  | None => (l0, Threw (TypeError "Cannot read properties of undefined (reading 'forEach')"))
  | Some sds =>
      match parseSplines m sds [] 0 with
      | (ss, _, Threw e) => (withSplines l0 ss, Threw e)
      | (ss, maxFrame, Returned) =>
          (mkLoader ss (currentTime l) (maxFrame / frameRateOf m)
                    (isPlaying l) (loop l) (speed l) m, Returned)
      end
  end.

(** ** Glow materials (src/unnamed/part_000) *)

(** [glowColors]. *)
Definition glowColors : list string :=
  ["#B5121B"; "#D7382E"; "#FA5D0F"; "#FBA144"; "#D7382E"; "#FA5D0F"; "#FBA144";
   "#144ED5"; "#FF80FF"]%string.

(** The mutable fields of a [MeshStandardMaterial] the code touches; the
    other options (roughness, metalness, ...) are constant. *)
Record GlowMaterial := mkGlowMaterial {
  color : string;
  emissiveIntensity : Q;
  opacity : Q
}.

(** [glowingMaterials]: one material per colour, emissive intensity [2.0],
    opacity [0.8]. *)
Definition glowingMaterials : list GlowMaterial :=
  map (fun c => mkGlowMaterial c 2 (4 # 5)) glowColors.

(** A material reference held by a mesh or by [materialInstances]: the
    mesh's own material, the [k]-th of [glowingMaterials] (shared objects),
    or [undefined]. *)
Inductive MatRef := OwnMaterial | GlowRef (k : nat) | Undefined.

(** The module state: the shared [glowingMaterials] objects and the
    [materialInstances] array. *)
Record MaterialStore := mkMaterialStore {
  glowing : list GlowMaterial;
  materialInstances : list MatRef
}.

(** A scene child: [child.isMesh] and [child.material]. *)
Record Child := mkChild {
  isMesh : bool;
  childMaterial : MatRef
}.

(** [getRandomGlowingMaterial()], with [Math.random()] given as [random];
    an index outside the array reads [undefined]. *)
Definition getRandomGlowingMaterial (st : MaterialStore) (random : Q) : MatRef :=
  let randomIndex := Qfloor (random * inject_Z (Z.of_nat (List.length (glowing st)))) in
  if (0 <=? randomIndex)%Z && (randomIndex <? Z.of_nat (List.length (glowing st)))%Z
  then GlowRef (Z.to_nat randomIndex) else Undefined.

(** [applyMaterials(child)]. *)
Definition applyMaterials (st : MaterialStore) (random : Q) (child : Child)
  : MaterialStore * Child :=
  if negb (isMesh child) then (st, child)
  else
    let material := getRandomGlowingMaterial st random in
    (mkMaterialStore (glowing st) (materialInstances st ++ [material]),
     mkChild (isMesh child) material).

(** [list[k] = f(list[k])], [None] when [k] is out of range. *)
Fixpoint updateNth {A : Type} (f : A -> A) (k : nat) (l : list A) : option (list A) :=
  match l, k with
  | [], _ => None
  | a :: rest, O => Some (f a :: rest)
  | a :: rest, S k' =>
      match updateNth f k' rest with
      | Some rest' => Some (a :: rest')
      | None => None
      end
  end.

(** [materialInstances.forEach(material => { material.<field> = ...; })]:
    a mesh's own material is outside the store; setting a property of
    [undefined] throws and ends the loop. *)
Fixpoint forEachMaterial (f : GlowMaterial -> GlowMaterial) (field : string)
         (insts : list MatRef) (g : list GlowMaterial) : list GlowMaterial * Outcome :=
  match insts with
  | [] => (g, Returned)
  | OwnMaterial :: rest => forEachMaterial f field rest g
  | GlowRef k :: rest =>
      match updateNth f k g with
      | Some g' => forEachMaterial f field rest g'
      | None => (g, Threw (TypeError ("Cannot set properties of undefined (setting '"
                                      ++ field ++ "')")%string))
      end
  | Undefined :: _ =>
      (g, Threw (TypeError ("Cannot set properties of undefined (setting '"
                            ++ field ++ "')")%string))
  end.

Definition setEmissive (e : Q) (mat : GlowMaterial) : GlowMaterial :=
  mkGlowMaterial (color mat) e (opacity mat).

Definition setOpacity (o : Q) (mat : GlowMaterial) : GlowMaterial :=
  mkGlowMaterial (color mat) (emissiveIntensity mat) o.

(** [updateMaterialGlow(threshold, strength, radius)]. *)
Definition updateMaterialGlow (st : MaterialStore) (threshold strength radius : Q)
  : MaterialStore * Outcome :=
  let '(g, o) := forEachMaterial (setEmissive (Qmax 2 (strength * 2))) "emissiveIntensity"%string
                                 (materialInstances st) (glowing st) in
  (mkMaterialStore g (materialInstances st), o).

(** [updateMaterialOpacity(opacity)]. *)
Definition updateMaterialOpacity (st : MaterialStore) (o : Q) : MaterialStore * Outcome :=
  let '(g, out) := forEachMaterial (setOpacity o) "opacity"%string
                                   (materialInstances st) (glowing st) in
  (mkMaterialStore g (materialInstances st), out).

(** Every registered material is one of the store's glowing materials. *)
Definition validInstances (st : MaterialStore) : Prop :=
  Forall (fun r => exists k, r = GlowRef k /\ (k < List.length (glowing st))%nat)
         (materialInstances st).

(** ** Scroll-driven playback (src/src/scripts/threejs.js) *)

(** The [lenisAPI.onScroll] handler: the time it gives [action.time]
    ([None] when there is no [action]).  [scrollHeight] and [innerHeight]
    are [document.body.scrollHeight] and [window.innerHeight]; [clipDuration]
    is [action.getClip().duration].  [action] is only assigned right after
    [mixer], so the inner [action && mixer] test is the outer one. *)
Definition onScrollActionTime (hasAction : bool) (scroll scrollHeight innerHeight clipDuration : Q)
  : option Q :=
  if negb hasAction then None
  else
    let scrollPercent := scroll / (scrollHeight - innerHeight) in
    let progress := Qmax 0 (Qmin 1 scrollPercent) in
    Some (progress * clipDuration).

(** ** Sample data *)

Definition origin : Point3 := mkPoint3 0 0 0.

Definition cpAt (p : Point3) : ControlPoint := mkControlPoint p p p.

Definition defaultMeta : Metadata := mkMetadata None None.

Definition mkTrack (fs : list Frame) : Spline :=
  mkSpline "spline" fs None 0 true false.

Definition loaderOf (ss : list Spline) (ct d : Q) (playing lp : bool) (sp : Q) : Loader :=
  mkLoader ss ct d playing lp sp defaultMeta.

(** A playing loader with no tracks, at time [ct], of duration [d]. *)
Definition playingLoader (ct d : Q) (lp : bool) (sp : Q) : Loader :=
  loaderOf [] ct d true lp sp.

(** A track whose only keyframe holds the raw point [(1, 2, 3)]. *)
Definition rawPointTrack : Spline :=
  mkTrack [mkFrame 0 None (Some [mkPoint3 1 2 3])].

(** A track whose only keyframe holds one segment with one control point. *)
Definition singleKnotTrack : Spline :=
  mkTrack [mkFrame 0 (Some [mkCurve (Some 1%Z) (Some [cpAt (mkPoint3 1 2 3)])]) None].

(** A track bracketing a curve keyframe (frame 0) and a point keyframe
    (frame 10); at 30 fps its duration is [1/3] s. *)
Definition mixedTrack : Spline :=
  mkTrack [mkFrame 0 (Some [mkCurve (Some 1%Z) (Some [cpAt origin])]) None;
           mkFrame 10 None (Some [origin])].

Definition mixedLoader : Loader :=
  mkLoader [mixedTrack] 0 (1 # 3) false true 1 defaultMeta.

(** A track of two keyframes carrying neither curves nor points. *)
Definition bareTrack : Spline :=
  mkTrack [mkFrame 0 None None; mkFrame 10 None None].

Definition bareLoader : Loader :=
  mkLoader [bareTrack] 0 (1 # 3) false true 1 defaultMeta.

(** A payload with a keyframe-less track and a track keyed at frames [0]
    and [60] (two seconds at the default 30 fps). *)
Definition sampleAsset : SplineAsset :=
  mkSplineAsset None
    (Some [mkSplineData "empty" [];
           mkSplineData "moving" [mkFrame 0 None (Some [origin]);
                                  mkFrame 60 None (Some [mkPoint3 1 0 0])]]).

(** A payload whose second track brackets time [0] between a curve keyframe
    and a point keyframe, so its initial geometry throws. *)
Definition brokenAsset : SplineAsset :=
  mkSplineAsset None
    (Some [mkSplineData "empty" [];
           mkSplineData "mixed" [mkFrame (-10) (Some [mkCurve (Some 1%Z) (Some [cpAt origin])]) None;
                                 mkFrame 10 None (Some [origin])];
           mkSplineData "never" []]).

(** A material store after three meshes drew materials [0], [7] and [0]. *)
Definition sampleStore : MaterialStore :=
  mkMaterialStore glowingMaterials [GlowRef 0; GlowRef 7; GlowRef 0].

(** A segment carries its [points] array. *)
Definition hasPoints (c : Curve) : bool :=
  match curvePoints c with Some _ => true | None => false end.

(** The fields of a spline other than its derived geometry. *)
Definition splineShape (s : Spline) : string * list Frame * nat * bool * bool :=
  (name s, frames s, material s, visible s, closed s).

(** [l'] differs from [l] at most in [currentTime] and the geometry of the
    splines. *)
Definition onlyTimeAndGeometry (l l' : Loader) : Prop :=
  isPlaying l' = isPlaying l /\ loop l' = loop l /\ speed l' = speed l /\
  duration l' = duration l /\ metadata l' = metadata l /\
  map splineShape (splines l') = map splineShape (splines l).

(** The control points of the interpolation midpoint example. *)
Definition midCurves1 : list Curve := [mkCurve None (Some [cpAt origin])].
Definition midCurves2 : list Curve := [mkCurve None (Some [cpAt (mkPoint3 10 0 0)])].

(** The time invariant: [currentTime] lies in [[0, duration]]. *)
Definition timeInRange (l : Loader) : Prop :=
  0 <= currentTime l /\ currentTime l <= duration l.

(** Playback moves forward: [update] is called with
    [deltaTime * speed >= 0]. *)
Definition forwardOp (l : Loader) (op : Op) : Prop :=
  match op with
  | OpUpdate deltaTime => 0 <= deltaTime * speed l
  | _ => True
  end.

(** ** Properties of the playback controller *)

Lemma jsMod_nonneg_range (s d : Q) :
  0 <= s -> 0 < d ->
  jsMod s d == s - d * inject_Z (Qfloor (s / d)) /\ 0 <= jsMod s d /\ jsMod s d < d.
Proof.
  intros Hs Hd.
  assert (Hq : 0 <= s / d) by (apply Qle_shift_div_l; lra).
  assert (Hsq : s == (s / d) * d) by (field; lra).
  unfold jsMod, jsTrunc.
  apply Qle_bool_iff in Hq. rewrite Hq. apply Qle_bool_iff in Hq.
  pose proof (Qfloor_le (s / d)) as Hf1.
  pose proof (Qlt_floor (s / d)) as Hf2. rewrite inject_Z_plus in Hf2.
  set (q := s / d) in *. set (f := inject_Z (Qfloor q)) in *.
  change (inject_Z 1) with 1 in Hf2.
  split; [reflexivity|].
  assert (H1 : 0 <= d * (q - f)) by (apply Qmult_le_0_compat; lra).
  assert (H2 : 0 < d * (f + 1 - q)) by (apply Qmult_lt_0_compat; lra).
  rewrite Hsq. split; lra.
Qed.

Lemma updateSplines_eq (l : Loader) :
  fst (updateSplines l)
  = withSplines l (fst (updateSplinesList (metadata l) (currentTime l) (splines l))).
Proof.
  unfold updateSplines. destruct (updateSplinesList _ _ _); reflexivity.
Qed.

Lemma Qeq_bool_pos (d : Q) : 0 < d -> Qeq_bool d 0 = false.
Proof.
  intro Hd. destruct (Qeq_bool d 0) eqn:E; [|reflexivity].
  apply Qeq_bool_iff in E. lra.
Qed.

(** C4: with [loop] on, [update(deltaTime)] sets [currentTime] to
    [(currentTime + deltaTime * speed) % duration]; for a non-negative sum
    this is the remainder of the floor division, in [[0, duration)],
    however large [deltaTime] is; playback keeps running. *)
Theorem update_loop_wraps (l : Loader) (deltaTime : Q)
  (Hplaying : isPlaying l = true) (Hloop : loop l = true) (Hd : 0 < duration l) :
  let s := currentTime l + deltaTime * speed l in
  let l' := fst (update l deltaTime) in
  currentTime l' = jsMod s (duration l) /\ isPlaying l' = true /\
  (0 <= s ->
   currentTime l' == s - duration l * inject_Z (Qfloor (s / duration l)) /\
   0 <= currentTime l' /\ currentTime l' < duration l).
Proof.
  intros s l'. subst l'.
  unfold update. rewrite Hplaying, Hloop, (Qeq_bool_pos _ Hd). simpl.
  rewrite updateSplines_eq. simpl.
  split; [reflexivity|]. split; [assumption|].
  intro Hs. exact (jsMod_nonneg_range s (duration l) Hs Hd).
Qed.

(** C5: with [loop] off, [update(deltaTime)] sets [currentTime] to
    [min(currentTime + deltaTime * speed, duration)], so at most
    [duration], and playback stops exactly when the clamped time reaches
    [duration], i.e. when the advanced time is at least [duration]. *)
Theorem update_noloop_clamps (l : Loader) (deltaTime : Q)
  (Hplaying : isPlaying l = true) (Hloop : loop l = false) (Hd : 0 < duration l) :
  let s := currentTime l + deltaTime * speed l in
  let l' := fst (update l deltaTime) in
  currentTime l' = Qmin s (duration l) /\ currentTime l' <= duration l /\
  (isPlaying l' = false <-> currentTime l' == duration l) /\
  (currentTime l' == duration l <-> duration l <= s).
Proof.
  intros s l'. subst l'.
  unfold update. rewrite Hplaying, Hloop, (Qeq_bool_pos _ Hd). simpl.
  fold s.
  assert (Hle : Qmin s (duration l) <= duration l) by apply Q.le_min_r.
  assert (Hiff : Qmin s (duration l) == duration l <-> duration l <= s).
  { destruct (Q.min_spec s (duration l)) as [[Hlt Heq] | [Hge Heq]];
      rewrite Heq; split; intro; lra. }
  destruct (Qle_bool (duration l) (Qmin s (duration l))) eqn:E;
    rewrite updateSplines_eq; simpl.
  - apply Qle_bool_iff in E.
    split; [reflexivity|]. split; [exact Hle|]. split; [|exact Hiff].
    split; intro; [lra | reflexivity].
  - rewrite Hplaying.
    split; [reflexivity|]. split; [exact Hle|]. split; [|exact Hiff].
    split; intro H; [discriminate|].
    assert (Hb : Qle_bool (duration l) (Qmin s (duration l)) = true)
      by (apply Qle_bool_iff; lra).
    congruence.
Qed.

Lemma update_loop_wraps_witness :
  currentTime (fst (update (fst (update (playingLoader 0 10 true 1) 7)) 7)) == 4.
Proof.
  assert (Hd : 0 < duration (fst (update (playingLoader 0 10 true 1) 7)))
    by (vm_compute; reflexivity).
  destruct (update_loop_wraps (fst (update (playingLoader 0 10 true 1) 7)) 7
              eq_refl eq_refl Hd) as [_ [_ H]].
  destruct H as [H _]; [vm_compute; discriminate|].
  rewrite H. vm_compute. reflexivity.
Defined.

Lemma update_noloop_clamps_witness :
  currentTime (fst (update (playingLoader 0 5 false 1) 8)) == 5 /\
  isPlaying (fst (update (playingLoader 0 5 false 1) 8)) = false.
Proof.
  assert (Hd : 0 < duration (playingLoader 0 5 false 1)) by (vm_compute; reflexivity).
  destruct (update_noloop_clamps (playingLoader 0 5 false 1) 8 eq_refl eq_refl Hd)
    as [_ [_ [Hp Hiff]]].
  assert (Hct : currentTime (fst (update (playingLoader 0 5 false 1) 8))
                == duration (playingLoader 0 5 false 1))
    by (apply Hiff; vm_compute; discriminate).
  split; [exact Hct | apply Hp; exact Hct].
Defined.

(** C7 (counterexample): with a negative [speed], one [update] from time
    [0] in a looping loader of duration [10] leaves [currentTime = -3],
    outside [[0, duration]]. *)
Lemma time_invariant_negative_speed :
  timeInRange (playingLoader 0 10 true (-1)) /\
  currentTime (fst (update (playingLoader 0 10 true (-1)) 3)) == -3 /\
  ~ timeInRange (fst (update (playingLoader 0 10 true (-1)) 3)).
Proof.
  split; [split; vm_compute; discriminate|].
  split; [vm_compute; reflexivity|].
  intros [H _]. vm_compute in H. apply H. reflexivity.
Qed.

Lemma clamp_in_range (t d : Q) :
  0 <= d -> 0 <= Qmax 0 (Qmin t d) /\ Qmax 0 (Qmin t d) <= d.
Proof.
  intro Hd. split.
  - apply Q.le_max_l.
  - apply Q.max_lub; [exact Hd | apply Q.le_min_r].
Qed.

(** C7 (amended): from a state with [0 <= currentTime <= duration], every
    public operation keeps [currentTime] in [[0, duration]], provided
    [update] moves forward ([deltaTime * speed >= 0]); this holds also when
    re-tessellation throws. *)
Theorem time_invariant_preserved (l : Loader) (op : Op)
  (Hinv : timeInRange l) (Hfwd : forwardOp l op) :
  timeInRange (fst (runOp l op)).
Proof.
  destruct Hinv as [H0 Hd].
  assert (Hd0 : 0 <= duration l) by lra.
  destruct op as [| | | time | progress | deltaTime]; simpl in Hfwd |- *.
  - split; simpl; assumption.
  - split; simpl; assumption.
  - unfold stop. rewrite updateSplines_eq. split; simpl; lra.
  - unfold setTime. rewrite updateSplines_eq. exact (clamp_in_range time _ Hd0).
  - unfold setProgress, setTime. rewrite updateSplines_eq.
    exact (clamp_in_range _ _ Hd0).
  - unfold update.
    destruct (negb (isPlaying l) || Qeq_bool (duration l) 0) eqn:Eg;
      [split; assumption|].
    apply orb_false_iff in Eg as [_ Eq0].
    assert (Hpos : 0 < duration l).
    { destruct (Qlt_le_dec 0 (duration l)) as [Hlt|Hle]; [exact Hlt|].
      assert (Hz : duration l == 0) by lra.
      apply Qeq_bool_iff in Hz. congruence. }
    set (s := currentTime l + deltaTime * speed l).
    assert (Hs : 0 <= s) by (unfold s; lra).
    destruct (loop l).
    + rewrite updateSplines_eq. unfold timeInRange; simpl.
      destruct (jsMod_nonneg_range s (duration l) Hs Hpos) as [_ [Hlo Hhi]].
      split; lra.
    + assert (Hm : 0 <= Qmin s (duration l) /\ Qmin s (duration l) <= duration l).
      { split; [apply Q.min_glb; lra | apply Q.le_min_r]. }
      destruct (Qle_bool _ _); rewrite updateSplines_eq; exact Hm.
Qed.

Lemma time_invariant_preserved_witness :
  timeInRange (fst (runOp (playingLoader 0 10 true 1) (OpUpdate 14))).
Proof.
  apply time_invariant_preserved.
  - split; vm_compute; discriminate.
  - vm_compute; discriminate.
Defined.

Lemma clamp01_cases (p : Q) :
  Qmax 0 (Qmin 1 p) = 0 \/ Qmax 0 (Qmin 1 p) = 1 \/
  (Qmax 0 (Qmin 1 p) = p /\ 0 < p /\ p < 1).
Proof.
  unfold Qmax, Qmin, GenericMinMax.gmax, GenericMinMax.gmin.
  destruct (1 ?= p) eqn:E1.
  - right; left; reflexivity.
  - right; left; reflexivity.
  - destruct (0 ?= p) eqn:E2.
    + left; reflexivity.
    + right; right. split; [reflexivity|]. split.
      * apply Qlt_alt; exact E2.
      * apply Qgt_alt; exact E1.
    + left; reflexivity.
Qed.

(** C8: [setProgress] clamps its argument to [[0, 1]] before scaling:
    [setProgress(p)] equals [setProgress] of the clamped value, hence
    [setProgress(-1)] equals [setProgress(0)] and [setProgress(2)] equals
    [setProgress(1)] (the whole resulting loader and outcome). *)
Theorem setProgress_clamps (l : Loader) :
  setProgress l (-1) = setProgress l 0 /\
  setProgress l 2 = setProgress l 1 /\
  (forall p, setProgress l p = setProgress l (Qmax 0 (Qmin 1 p))).
Proof.
  split; [reflexivity|]. split; [reflexivity|].
  intro p. unfold setProgress.
  destruct (clamp01_cases p) as [E | [E | [E [Hlo Hhi]]]]; rewrite E;
    [reflexivity | reflexivity |].
  unfold Qmax, Qmin, GenericMinMax.gmax, GenericMinMax.gmin.
  assert (E1 : (1 ?= p) = Gt) by (apply Qgt_alt; exact Hhi).
  assert (E2 : (0 ?= p) = Lt) by (apply Qlt_alt; exact Hlo).
  rewrite E1, E2. reflexivity.
Qed.

(** ** Properties of the geometry pipeline *)

(** C1 (code bug): raw [Point3] data never reaches the position buffer:
    the positions generated from point data are always empty, so a track
    whose keyframe holds the point [(1, 2, 3)] gets an empty buffer
    instead of [[1, 2, 3]]. *)
Theorem rawPoints_not_passed_through :
  (forall ps, generatePositions (Some (DPoints ps)) = []) /\
  updateSplineGeometry defaultMeta rawPointTrack 0 = Ok (setPosition rawPointTrack []).
Proof.
  split; [|reflexivity].
  intro ps. induction ps as [|p ps IH]; [reflexivity|]. exact IH.
Qed.

(** C2 (code bug): [generateBezierCurve] returns nothing for a segment of
    one control point (the early return for fewer than two points comes
    before the single-knot case), so such a track gets an empty buffer. *)
Theorem generateBezierCurve_single_point_empty :
  (forall cp segments, generateBezierCurve [cp] segments = []) /\
  updateSplineGeometry defaultMeta singleKnotTrack 0 = Ok (setPosition singleKnotTrack []).
Proof.
  split; [reflexivity | reflexivity].
Qed.

(** C3 (code bug): scrubbing into a bracket of a curve keyframe and a point
    keyframe, or of two keyframes with neither array, throws from
    [interpolatePoints]. *)
Theorem setTime_mixed_bracket_throws :
  snd (setTime mixedLoader (1 # 6))
    = Threw (TypeError "Cannot read properties of undefined (reading 'length')") /\
  snd (setTime bareLoader (1 # 6))
    = Threw (TypeError "Cannot read properties of undefined (reading 'length')").
Proof.
  split; vm_compute; reflexivity.
Qed.

Lemma nth_error_combine_some {A B : Type} (l1 : list A) (l2 : list B) (i : nat) a b :
  nth_error l1 i = Some a -> nth_error l2 i = Some b ->
  nth_error (combine l1 l2) i = Some (a, b).
Proof.
  revert l2 i. induction l1 as [|a1 r1 IH]; intros [|b2 r2] [|i]; simpl;
    intros Ha Hb; try discriminate.
  - congruence.
  - apply IH; assumption.
Qed.

Lemma interpolateCurvePairs_combine (curves1 curves2 : list Curve) (i0 : nat) (t : Q) :
  forallb hasPoints curves1 = true -> forallb hasPoints curves2 = true ->
  List.length (interpolateCurvePairs (combine curves1 curves2) i0 t)
    = Nat.min (List.length curves1) (List.length curves2) /\
  (forall i c1 c2 ps1 ps2,
     nth_error curves1 i = Some c1 -> nth_error curves2 i = Some c2 ->
     curvePoints c1 = Some ps1 -> curvePoints c2 = Some ps2 ->
     exists idx,
       nth_error (interpolateCurvePairs (combine curves1 curves2) i0 t) i
         = Some (mkCurve (Some idx)
                  (Some (map (fun '(p1, p2) => lerpControlPoint p1 p2 t) (combine ps1 ps2))))).
Proof.
  revert curves2 i0.
  induction curves1 as [|c1 r1 IH]; intros [|c2 r2] i0 H1 H2; simpl in *.
  - split; [reflexivity|]. intros [|i]; discriminate.
  - split; [reflexivity|]. intros [|i]; discriminate.
  - split; [reflexivity|]. intros [|i] ? ? ? ? ? Hb; discriminate.
  - apply andb_prop in H1 as [Hc1 H1]. apply andb_prop in H2 as [Hc2 H2].
    unfold hasPoints in Hc1, Hc2.
    destruct (curvePoints c1) as [q1|] eqn:E1; [|discriminate].
    destruct (curvePoints c2) as [q2|] eqn:E2; [|discriminate].
    destruct (IH r2 (S i0) H1 H2) as [Hlen Hnth].
    split; [simpl; rewrite Hlen; reflexivity|].
    intros [|i] d1 d2 ps1 ps2 Ha Hb Hp1 Hp2; simpl in Ha, Hb |- *.
    + injection Ha as <-. injection Hb as <-.
      rewrite E1 in Hp1. rewrite E2 in Hp2. injection Hp1 as <-. injection Hp2 as <-.
      eexists. reflexivity.
    + exact (Hnth i d1 d2 ps1 ps2 Ha Hb Hp1 Hp2).
Qed.

(** C6: for two keyframes both carrying curve segments (each segment with
    its control points), [interpolateBezierCurves] pairs segments by index
    up to the smaller segment count (the extra segments of the longer side
    are dropped); the [i]-th output segment pairs the control points of the
    [i]-th input segments up to the smaller point count, each interpolated
    by [lerpControlPoint] (knot, inHandle and outHandle separately, each
    component by [lerp]), and [lerp a b t = a + (b - a) * t]. *)
Theorem interpolateBezierCurves_pairwise (curves1 curves2 : list Curve) (t : Q)
  (H1 : forallb hasPoints curves1 = true) (H2 : forallb hasPoints curves2 = true) :
  let out := interpolateBezierCurves curves1 curves2 t in
  List.length out = Nat.min (List.length curves1) (List.length curves2) /\
  (forall i c1 c2 ps1 ps2,
     nth_error curves1 i = Some c1 -> nth_error curves2 i = Some c2 ->
     curvePoints c1 = Some ps1 -> curvePoints c2 = Some ps2 ->
     exists idx ps,
       nth_error out i = Some (mkCurve (Some idx) (Some ps)) /\
       List.length ps = Nat.min (List.length ps1) (List.length ps2) /\
       (forall j p1 p2, nth_error ps1 j = Some p1 -> nth_error ps2 j = Some p2 ->
          nth_error ps j = Some (lerpControlPoint p1 p2 t))) /\
  (forall a b, lerp a b t == a + (b - a) * t).
Proof.
  intro out. unfold out, interpolateBezierCurves.
  destruct (interpolateCurvePairs_combine curves1 curves2 0 t H1 H2) as [Hlen Hnth].
  split; [exact Hlen|]. split.
  - intros i c1 c2 ps1 ps2 Ha Hb Hp1 Hp2.
    destruct (Hnth i c1 c2 ps1 ps2 Ha Hb Hp1 Hp2) as [idx Hi].
    exists idx, (map (fun '(p1, p2) => lerpControlPoint p1 p2 t) (combine ps1 ps2)).
    split; [exact Hi|]. split.
    + rewrite length_map. apply length_combine.
    + intros j p1 p2 Hj1 Hj2.
      rewrite nth_error_map, (nth_error_combine_some ps1 ps2 j p1 p2 Hj1 Hj2).
      reflexivity.
  - intros a b. unfold lerp. ring.
Qed.

(** The midpoint example: knots [(0,0,0)] and [(10,0,0)] at [t = 1/2]. *)
Lemma interpolateBezierCurves_pairwise_witness :
  exists idx ps,
    nth_error (interpolateBezierCurves midCurves1 midCurves2 (1 # 2)) 0
      = Some (mkCurve (Some idx) (Some ps)) /\
    nth_error ps 0 = Some (lerpControlPoint (cpAt origin) (cpAt (mkPoint3 10 0 0)) (1 # 2)) /\
    x (knot (lerpControlPoint (cpAt origin) (cpAt (mkPoint3 10 0 0)) (1 # 2))) == 5 /\
    y (knot (lerpControlPoint (cpAt origin) (cpAt (mkPoint3 10 0 0)) (1 # 2))) == 0 /\
    z (knot (lerpControlPoint (cpAt origin) (cpAt (mkPoint3 10 0 0)) (1 # 2))) == 0.
Proof.
  destruct (interpolateBezierCurves_pairwise midCurves1 midCurves2 (1 # 2) eq_refl eq_refl)
    as [_ [Hnth _]].
  destruct (Hnth 0%nat (mkCurve None (Some [cpAt origin]))
                 (mkCurve None (Some [cpAt (mkPoint3 10 0 0)]))
                 [cpAt origin] [cpAt (mkPoint3 10 0 0)] eq_refl eq_refl eq_refl eq_refl)
    as [idx [ps [Hi [_ Hp]]]].
  exists idx, ps. split; [exact Hi|]. split; [apply Hp; reflexivity|].
  split; [|split]; vm_compute; reflexivity.
Defined.

(** ** Tracks without keyframes, and the frame of scrubbing *)

Lemma updateSplineGeometry_no_frames (m : Metadata) (s : Spline) (time : Q) :
  frames s = [] -> updateSplineGeometry m s time = Ok s.
Proof.
  intro H. unfold updateSplineGeometry. rewrite H. reflexivity.
Qed.

Lemma updateSplinesList_keeps_empty (m : Metadata) (time : Q) (ss : list Spline)
  (i : nat) (s : Spline) :
  nth_error ss i = Some s -> frames s = [] ->
  nth_error (fst (updateSplinesList m time ss)) i = Some s.
Proof.
  revert i. induction ss as [|s0 rest IH]; intros [|i] Hi Hf; simpl in Hi |- *;
    try discriminate.
  - injection Hi as ->. rewrite (updateSplineGeometry_no_frames m s time Hf).
    destruct (updateSplinesList m time rest); reflexivity.
  - destruct (updateSplineGeometry m s0 time) as [s'|e]; [|exact Hi].
    specialize (IH i Hi Hf).
    destruct (updateSplinesList m time rest) as [rest' o]. exact IH.
Qed.

(** C9: a track with no keyframes keeps its spline object, position buffer
    included, through every public operation, for every time value. *)
Theorem empty_track_untouched (l : Loader) (op : Op) (i : nat) (s : Spline)
  (Hi : nth_error (splines l) i = Some s) (Hf : frames s = []) :
  nth_error (splines (fst (runOp l op))) i = Some s.
Proof.
  destruct op; simpl;
    try (unfold stop, setTime, setProgress, setTime;
         rewrite updateSplines_eq; simpl;
         apply updateSplinesList_keeps_empty; assumption).
  - exact Hi.
  - exact Hi.
  - unfold update.
    destruct (negb (isPlaying l) || Qeq_bool (duration l) 0); [exact Hi|].
    destruct (loop l); [|destruct (Qle_bool _ _)];
      rewrite updateSplines_eq; simpl;
      apply updateSplinesList_keeps_empty; assumption.
Qed.

Lemma empty_track_untouched_witness :
  nth_error (splines (fst (runOp (loaderOf [mkTrack []] 0 1 true true 1) (OpUpdate 3)))) 0
    = Some (mkTrack []).
Proof.
  apply empty_track_untouched; reflexivity.
Defined.

Lemma updateSplineGeometry_shape (m : Metadata) (s s' : Spline) (time : Q) :
  updateSplineGeometry m s time = Ok s' -> splineShape s' = splineShape s.
Proof.
  unfold updateSplineGeometry.
  destruct (findBracket (frames s) (time * frameRateOf m))
    as [[[pi prevFrame] [ni nextFrame]]|].
  - destruct (Nat.eqb pi ni).
    + intro H. injection H as <-. reflexivity.
    + destruct (curves prevFrame), (curves nextFrame);
        try (intro H; injection H as <-; reflexivity);
        destruct (interpolatePoints _ _ _); intro H; try discriminate;
        injection H as <-; reflexivity.
  - intro H. injection H as <-. reflexivity.
Qed.

Lemma updateSplinesList_shape (m : Metadata) (time : Q) (ss : list Spline) :
  map splineShape (fst (updateSplinesList m time ss)) = map splineShape ss.
Proof.
  induction ss as [|s rest IH]; [reflexivity|]. simpl.
  destruct (updateSplineGeometry m s time) as [s'|e] eqn:E; [|reflexivity].
  destruct (updateSplinesList m time rest) as [rest' o]. simpl in IH |- *.
  rewrite (updateSplineGeometry_shape m s s' time E), IH. reflexivity.
Qed.

Lemma updateSplines_only_geometry (l : Loader) :
  onlyTimeAndGeometry (withTime l (currentTime l)) (fst (updateSplines l)).
Proof.
  rewrite updateSplines_eq. unfold onlyTimeAndGeometry; simpl.
  rewrite updateSplinesList_shape. repeat split.
Qed.

(** C10: [setTime(t)] and [setProgress(p)] change only [currentTime] and
    the geometry of the splines: [isPlaying], [loop], [speed], [duration],
    [metadata], and each spline's name, keyframes, material, visibility and
    [closed] flag stay as they were, also when re-tessellation throws. *)
Theorem scrub_changes_only_time_and_geometry (l : Loader) (t p : Q) :
  onlyTimeAndGeometry l (fst (setTime l t)) /\
  onlyTimeAndGeometry l (fst (setProgress l p)).
Proof.
  split; apply updateSplines_only_geometry.
Qed.

(** ** Keyframe resolution *)

Lemma findBracket_head (f0 : Frame) (rest : list Frame) (targetFrame : Q) :
  targetFrame <= inject_Z (frame f0) ->
  findBracket (f0 :: rest) targetFrame = Some ((0%nat, f0), (0%nat, f0)).
Proof.
  intro H. apply Qle_bool_iff in H.
  unfold findBracket; simpl. rewrite H.
  destruct (Qle_bool (inject_Z (frame f0)) targetFrame); reflexivity.
Qed.

(** At or before the first keyframe (target frame at most the first
    frame's number), a track renders that first keyframe's own data, with
    no blending; this needs no ordering of the keyframes. *)
Theorem geometry_before_first_frame (m : Metadata) (s : Spline) (time : Q)
  (f0 : Frame) (rest : list Frame)
  (Hfs : frames s = f0 :: rest) (Ht : time * frameRateOf m <= inject_Z (frame f0)) :
  updateSplineGeometry m s time
  = Ok (setPosition s (closePositions (closed s) (generatePositions (frameData f0)))).
Proof.
  unfold updateSplineGeometry. rewrite Hfs, (findBracket_head f0 rest _ Ht).
  reflexivity.
Qed.

Lemma geometry_before_first_frame_witness :
  updateSplineGeometry defaultMeta mixedTrack 0
  = Ok (setPosition mixedTrack
          (closePositions (closed mixedTrack)
             (generatePositions
                (frameData (mkFrame 0 (Some [mkCurve (Some 1%Z) (Some [cpAt origin])]) None))))).
Proof.
  apply (geometry_before_first_frame defaultMeta mixedTrack 0
           (mkFrame 0 (Some [mkCurve (Some 1%Z) (Some [cpAt origin])]) None)
           [mkFrame 10 None (Some [origin])]); [reflexivity | vm_compute; discriminate].
Defined.

Lemma scanFrames_all_below (fs : list Frame) (i : nat) (targetFrame : Q)
      (prev : option (nat * Frame)) (d : Frame) :
  fs <> [] -> Forall (fun f => inject_Z (frame f) < targetFrame) fs ->
  scanFrames fs i targetFrame prev
  = (Some ((i + List.length fs - 1)%nat, last fs d), None).
Proof.
  revert i prev. induction fs as [|f rest IH]; intros i prev Hne Hall; [congruence|].
  inversion Hall as [|? ? Hf Hrest]; subst.
  simpl.
  assert (E1 : Qle_bool (inject_Z (frame f)) targetFrame = true)
    by (apply Qle_bool_iff; lra).
  assert (E2 : Qle_bool targetFrame (inject_Z (frame f)) = false).
  { destruct (Qle_bool targetFrame (inject_Z (frame f))) eqn:E; [|reflexivity].
    apply Qle_bool_iff in E. lra. }
  rewrite E1, E2.
  destruct rest as [|f' rest'].
  - simpl. f_equal. f_equal. f_equal. lia.
  - rewrite (IH (S i) (Some (i, f)) ltac:(discriminate) Hrest).
    f_equal. f_equal. f_equal. simpl. lia.
Qed.

(** Past the last keyframe (every keyframe's number below the target
    frame), a track renders the last keyframe's own data, with no
    blending. *)
Theorem geometry_after_last_frame (m : Metadata) (s : Spline) (time : Q) (d : Frame)
  (Hne : frames s <> [])
  (Hall : Forall (fun f => inject_Z (frame f) < time * frameRateOf m) (frames s)) :
  updateSplineGeometry m s time
  = Ok (setPosition s (closePositions (closed s) (generatePositions (frameData (last (frames s) d))))).
Proof.
  unfold updateSplineGeometry, findBracket.
  rewrite (scanFrames_all_below (frames s) 0 _ None d Hne Hall).
  rewrite Nat.eqb_refl. reflexivity.
Qed.

Lemma geometry_after_last_frame_witness :
  updateSplineGeometry defaultMeta mixedTrack 1
  = Ok (setPosition mixedTrack
          (closePositions (closed mixedTrack)
             (generatePositions (frameData (mkFrame 10 None (Some [origin])))))).
Proof.
  apply (geometry_after_last_frame defaultMeta mixedTrack 1 (mkFrame 10 None (Some [origin]))).
  - discriminate.
  - repeat constructor; vm_compute; reflexivity.
Defined.

Lemma scanFrames_bracket (fs : list Frame) (i : nat) (targetFrame : Q)
      (prev : option (nat * Frame)) (pi ni : nat) (pf nf : Frame) :
  (forall qi qf, prev = Some (qi, qf) ->
     (qi < i)%nat /\ inject_Z (frame qf) < targetFrame) ->
  scanFrames fs i targetFrame prev = (Some (pi, pf), Some (ni, nf)) ->
  targetFrame <= inject_Z (frame nf) /\ inject_Z (frame pf) <= targetFrame /\
  (pi = ni \/ ((pi < ni)%nat /\ inject_Z (frame pf) < targetFrame)).
Proof.
  revert i prev. induction fs as [|f rest IH]; intros i prev Hprev Hscan;
    simpl in Hscan; [discriminate|].
  destruct (Qle_bool targetFrame (inject_Z (frame f))) eqn:E2.
  - apply Qle_bool_iff in E2.
    destruct (Qle_bool (inject_Z (frame f)) targetFrame) eqn:E1.
    + apply Qle_bool_iff in E1. injection Hscan as <- <- <- <-.
      split; [exact E2|]. split; [exact E1|]. left; reflexivity.
    + injection Hscan as Hp <- <-.
      destruct (Hprev pi pf Hp) as [Hlt Hpf].
      split; [exact E2|]. split; [lra|]. right; split; assumption.
  - assert (Hlt : targetFrame > inject_Z (frame f)).
    { destruct (Qlt_le_dec (inject_Z (frame f)) targetFrame) as [H|H]; [exact H|].
      apply Qle_bool_iff in H. congruence. }
    refine (IH (S i) _ _ Hscan).
    intros qi qf Hq.
    destruct (Qle_bool (inject_Z (frame f)) targetFrame).
    + injection Hq as <- <-. split; [lia | exact Hlt].
    + destruct (Hprev qi qf Hq). split; [lia | assumption].
Qed.

Lemma inject_Z_sub_eq (a b : Z) : inject_Z (a - b) = inject_Z a - inject_Z b.
Proof.
  unfold Z.sub. rewrite inject_Z_plus, inject_Z_opp. reflexivity.
Qed.

(** When the two bracketing keyframes differ, the earlier one comes first
    in the track, its number is strictly below the later one's, the target
    frame lies between them, and the interpolation factor [t] computed by
    [updateSplineGeometry] lies in [[0, 1]]; this holds for any order of
    the keyframes. *)
Theorem bracket_factor_in_unit (fs : list Frame) (targetFrame : Q)
  (pi ni : nat) (prevFrame nextFrame : Frame)
  (Hb : findBracket fs targetFrame = Some ((pi, prevFrame), (ni, nextFrame)))
  (Hne : pi <> ni) :
  let frameDiff := inject_Z (frame nextFrame - frame prevFrame) in
  let t := if Qeq_bool frameDiff 0 then 0
           else (targetFrame - inject_Z (frame prevFrame)) / frameDiff in
  (pi < ni)%nat /\ inject_Z (frame prevFrame) < inject_Z (frame nextFrame) /\
  inject_Z (frame prevFrame) <= targetFrame <= inject_Z (frame nextFrame) /\
  0 <= t <= 1.
Proof.
  intros frameDiff t.
  unfold findBracket in Hb.
  destruct (scanFrames fs 0 targetFrame None) as [[[qi qf]|] [[mi mf]|]] eqn:Hs;
    try discriminate;
    try (injection Hb as E1 E2 E3 E4; subst; contradiction).
  injection Hb as -> -> -> ->.
  destruct (scanFrames_bracket fs 0 targetFrame None pi ni prevFrame nextFrame
              ltac:(discriminate) Hs) as [Hn [Hp [Heq | [Hlt Hpt]]]]; [contradiction|].
  assert (Hd : 0 < frameDiff).
  { unfold frameDiff. rewrite inject_Z_sub_eq. lra. }
  assert (Hdq : Qeq_bool frameDiff 0 = false) by (apply Qeq_bool_pos; exact Hd).
  split; [exact Hlt|]. split; [lra|]. split; [split; lra|].
  unfold t. rewrite Hdq. unfold frameDiff in *. rewrite inject_Z_sub_eq in *.
  split.
  - apply Qle_shift_div_l; lra.
  - apply Qle_shift_div_r; lra.
Qed.

Lemma bracket_factor_in_unit_witness :
  (0 < 1)%nat /\ 0 <= (5 - 0) / (10 - 0) <= 1.
Proof.
  destruct (bracket_factor_in_unit (frames mixedTrack) 5 0 1
              (mkFrame 0 (Some [mkCurve (Some 1%Z) (Some [cpAt origin])]) None)
              (mkFrame 10 None (Some [origin])) eq_refl ltac:(discriminate))
    as [Hlt [_ [_ Ht]]].
  split; [exact Hlt|]. vm_compute in Ht. exact Ht.
Defined.

(** ** Curve tessellation *)



Lemma length_getPoints (v0 v1 v2 v3 : Point3) (divisions : nat) :
  List.length (getPoints v0 v1 v2 v3 divisions) = S divisions.
Proof.
  unfold getPoints. rewrite length_map, length_seq. reflexivity.
Qed.




Lemma nth_error_flat_map_block {A B : Type} (f : A -> list B) (m : nat) (l : list A)
      (k j : nat) (a : A) :
  (forall a, List.length (f a) = m) -> nth_error l k = Some a -> (j < m)%nat ->
  nth_error (flat_map f l) (k * m + j) = nth_error (f a) j.
Proof.
  intros Hf. revert k. induction l as [|a0 l IH]; intros [|k] Ha Hj; simpl in Ha;
    try discriminate.
  - injection Ha as <-. simpl. apply nth_error_app1. rewrite Hf. exact Hj.
  - simpl. rewrite nth_error_app2 by (rewrite Hf; lia).
    rewrite Hf. replace (m + k * m + j - m)%nat with (k * m + j)%nat by lia.
    apply IH; assumption.
Qed.

Lemma nth_error_consecutivePairs (l : list ControlPoint) (k : nat) (a b : ControlPoint) :
  nth_error l k = Some a -> nth_error l (S k) = Some b ->
  nth_error (consecutivePairs l) k = Some (a, b).
Proof.
  revert k. induction l as [|a0 [|b0 r] IH]; intros [|k] Ha Hb; simpl in Ha, Hb;
    try discriminate; try (destruct k; discriminate).
  - injection Ha as <-. injection Hb as <-. reflexivity.
  - change (consecutivePairs (a0 :: b0 :: r)) with ((a0, b0) :: consecutivePairs (b0 :: r)).
    simpl. apply IH; assumption.
Qed.

Lemma generateBezierCurve_arcs (bezierPoints : list ControlPoint) (segments : nat) :
  (2 <= List.length bezierPoints)%nat ->
  generateBezierCurve bezierPoints segments
  = flat_map (fun '(current, next) =>
                getPoints (knot current) (outHandle current) (inHandle next) (knot next) segments)
             (consecutivePairs bezierPoints).
Proof.
  intro H. destruct bezierPoints as [|a [|b r]]; simpl in H; try lia. reflexivity.
Qed.

Lemma nth_error_getPoints (v0 v1 v2 v3 : Point3) (divisions j : nat) :
  (j <= divisions)%nat ->
  nth_error (getPoints v0 v1 v2 v3 divisions) j
  = Some (bezierPoint v0 v1 v2 v3 (inject_Z (Z.of_nat j) / inject_Z (Z.of_nat divisions))).
Proof.
  intro Hj. unfold getPoints. rewrite nth_error_map, nth_error_seq.
  replace (Nat.ltb j (S divisions)) with true by (symmetry; apply Nat.ltb_lt; lia).
  reflexivity.
Qed.

Lemma CubicBezier_start (t p0 p1 p2 p3 : Q) : t == 0 -> CubicBezier t p0 p1 p2 p3 == p0.
Proof. intro Ht. unfold CubicBezier. rewrite Ht. ring. Qed.

Lemma CubicBezier_end (t p0 p1 p2 p3 : Q) : t == 1 -> CubicBezier t p0 p1 p2 p3 == p3.
Proof. intro Ht. unfold CubicBezier. rewrite Ht. ring. Qed.

(** The tessellated polyline passes through every knot: for consecutive
    control points [a = bezierPoints[k]] and [b = bezierPoints[k + 1]],
    the [k]-th arc occupies samples [k * (segments + 1)] to
    [k * (segments + 1) + segments]; its first sample is [a.knot] and its
    last is [b.knot] (for [segments > 0]). *)
Theorem generateBezierCurve_through_knots (bezierPoints : list ControlPoint)
  (segments k : nat) (a b : ControlPoint)
  (Hseg : (0 < segments)%nat)
  (Ha : nth_error bezierPoints k = Some a) (Hb : nth_error bezierPoints (S k) = Some b) :
  exists p q,
    nth_error (generateBezierCurve bezierPoints segments) (k * S segments) = Some p /\
    nth_error (generateBezierCurve bezierPoints segments) (k * S segments + segments) = Some q /\
    x p == x (knot a) /\ y p == y (knot a) /\ z p == z (knot a) /\
    x q == x (knot b) /\ y q == y (knot b) /\ z q == z (knot b).
Proof.
  assert (Hlen : (2 <= List.length bezierPoints)%nat).
  { assert (S k < List.length bezierPoints)%nat
      by (apply nth_error_Some; rewrite Hb; discriminate). lia. }
  rewrite generateBezierCurve_arcs by exact Hlen.
  pose proof (nth_error_consecutivePairs bezierPoints k a b Ha Hb) as Hk.
  assert (Hf : forall pr : ControlPoint * ControlPoint,
             List.length ((fun '(current, next) =>
                getPoints (knot current) (outHandle current) (inHandle next) (knot next) segments)
                pr) = S segments)
    by (intros [c n]; apply length_getPoints).
  rewrite <- (Nat.add_0_r (k * S segments)).
  rewrite (nth_error_flat_map_block _ (S segments) _ k 0 (a, b) Hf Hk) by lia.
  rewrite Nat.add_0_r.
  rewrite (nth_error_flat_map_block _ (S segments) _ k segments (a, b) Hf Hk) by lia.
  rewrite !nth_error_getPoints by lia.
  eexists; eexists. split; [reflexivity|]. split; [reflexivity|].
  assert (H0 : inject_Z (Z.of_nat 0) / inject_Z (Z.of_nat segments) == 0).
  { unfold Qdiv. apply Qmult_0_l. }
  assert (H1 : inject_Z (Z.of_nat segments) / inject_Z (Z.of_nat segments) == 1).
  { unfold Qdiv. apply Qmult_inv_r. intro Hz.
    unfold Qeq in Hz. simpl in Hz. lia. }
  unfold bezierPoint; simpl.
  repeat split; first [apply CubicBezier_start; exact H0 | apply CubicBezier_end; exact H1].
Qed.

Lemma generateBezierCurve_through_knots_witness :
  exists p q,
    nth_error (generateBezierCurve [cpAt origin; cpAt (mkPoint3 10 0 0)] 20) 0 = Some p /\
    nth_error (generateBezierCurve [cpAt origin; cpAt (mkPoint3 10 0 0)] 20) 20 = Some q /\
    x p == 0 /\ y p == 0 /\ z p == 0 /\ x q == 10 /\ y q == 0 /\ z q == 0.
Proof.
  exact (generateBezierCurve_through_knots [cpAt origin; cpAt (mkPoint3 10 0 0)] 20 0
           (cpAt origin) (cpAt (mkPoint3 10 0 0)) ltac:(lia) eq_refl eq_refl).
Defined.

(** ** Seeking, per-name setters and disposal *)

(** Reading the progress back after [setProgress(p)] gives [p] clamped to
    [[0, 1]] (for a positive duration). *)
Theorem setProgress_getProgress (l : Loader) (p : Q) (Hd : 0 < duration l) :
  getProgress (fst (setProgress l p)) == Qmax 0 (Qmin 1 p).
Proof.
  unfold setProgress, setTime. rewrite updateSplines_eq.
  unfold getProgress; simpl.
  replace (Qle_bool (duration l) 0) with false
    by (symmetry; destruct (Qle_bool (duration l) 0) eqn:E; [|reflexivity];
        apply Qle_bool_iff in E; lra).
  simpl.
  set (c := Qmax 0 (Qmin 1 p)).
  assert (Hc0 : 0 <= c) by apply Q.le_max_l.
  assert (Hc1 : c <= 1) by (apply Q.max_lub; [lra | apply Q.le_min_l]).
  assert (Hcd : c * duration l <= duration l) by nra.
  assert (Hcd0 : 0 <= c * duration l) by nra.
  rewrite (Q.min_l _ _ Hcd), (Q.max_r _ _ Hcd0).
  field. lra.
Qed.

Lemma setProgress_getProgress_witness :
  getProgress (fst (setProgress (playingLoader 0 10 true 1) 2)) == 1.
Proof.
  rewrite (setProgress_getProgress (playingLoader 0 10 true 1) 2
             ltac:(vm_compute; reflexivity)).
  vm_compute. reflexivity.
Defined.

(** [setTime(t)] puts [currentTime] at [t] inside [[0, duration]], at [0]
    below it and at [duration] above it. *)
Theorem setTime_getCurrentTime (l : Loader) (t : Q) (Hd : 0 <= duration l) :
  let ct := getCurrentTime (fst (setTime l t)) in
  (0 <= t <= duration l -> ct == t) /\ (t <= 0 -> ct == 0) /\
  (duration l <= t -> ct == duration l).
Proof.
  intro ct. unfold ct, getCurrentTime, setTime. rewrite updateSplines_eq. simpl.
  split; [|split]; intro Ht.
  - rewrite (Q.min_l _ _ (proj2 Ht)). apply Q.max_r. lra.
  - apply Q.max_l. rewrite Q.min_l by lra. lra.
  - rewrite (Q.min_r _ _ Ht). apply Q.max_r. exact Hd.
Qed.

Lemma setTime_getCurrentTime_witness :
  getCurrentTime (fst (setTime (playingLoader 0 10 true 1) 4)) == 4.
Proof.
  destruct (setTime_getCurrentTime (playingLoader 0 10 true 1) 4
              ltac:(vm_compute; discriminate)) as [H _].
  apply H. split; vm_compute; discriminate.
Defined.

Lemma updateFirstNamed_spec (f : Spline -> Spline) (nm : string) (ss : list Spline) :
  match find (fun s => String.eqb (name s) nm) ss with
  | None => updateFirstNamed f nm ss = ss
  | Some s =>
      exists pre post, ss = pre ++ s :: post /\
        Forall (fun s' => name s' <> nm) pre /\
        updateFirstNamed f nm ss = pre ++ f s :: post
  end.
Proof.
  induction ss as [|s0 rest IH]; [reflexivity|]. simpl.
  destruct (String.eqb (name s0) nm) eqn:E; simpl.
  - exists [], rest. repeat split. constructor.
  - destruct (find (fun s => String.eqb (name s) nm) rest) as [s|].
    + destruct IH as [pre [post [H1 [H2 H3]]]].
      exists (s0 :: pre), post. rewrite H3, H1. split; [reflexivity|]. split; [|reflexivity].
      constructor; [|exact H2]. intro Hn. apply String.eqb_eq in Hn. congruence.
    + rewrite IH. reflexivity.
Qed.

Lemma withSplines_same (l : Loader) : withSplines l (splines l) = l.
Proof. destruct l; reflexivity. Qed.

(** [setSplineMaterial(name, material)] gives the material to the first
    spline with that name only (the ones before it have other names, the
    ones after it are untouched, even with the same name); with no spline
    of that name it changes nothing. *)
Theorem setSplineMaterial_first_named (l : Loader) (nm : string) (mat : nat) :
  match getSplineByName l nm with
  | None => setSplineMaterial l nm mat = l
  | Some s =>
      exists pre post, splines l = pre ++ s :: post /\
        Forall (fun s' => name s' <> nm) pre /\
        splines (setSplineMaterial l nm mat) = pre ++ withMaterial mat s :: post
  end.
Proof.
  unfold getSplineByName, setSplineMaterial.
  pose proof (updateFirstNamed_spec (withMaterial mat) nm (splines l)) as H.
  destruct (find _ (splines l)); [exact H|].
  rewrite H. apply withSplines_same.
Qed.

(** [setSplineVisibility(name, visible)] sets the visibility of the first
    spline with that name only; with no spline of that name it changes
    nothing. *)
Theorem setSplineVisibility_first_named (l : Loader) (nm : string) (v : bool) :
  match getSplineByName l nm with
  | None => setSplineVisibility l nm v = l
  | Some s =>
      exists pre post, splines l = pre ++ s :: post /\
        Forall (fun s' => name s' <> nm) pre /\
        splines (setSplineVisibility l nm v) = pre ++ withVisible v s :: post
  end.
Proof.
  unfold getSplineByName, setSplineVisibility.
  pose proof (updateFirstNamed_spec (withVisible v) nm (splines l)) as H.
  destruct (find _ (splines l)); [exact H|].
  rewrite H. apply withSplines_same.
Qed.

(** [dispose()] empties the track list but leaves playback running: no
    name is found afterwards, and a later [update] returns normally and
    advances [currentTime] and [isPlaying] exactly as without disposal. *)
Theorem dispose_keeps_playback (l : Loader) (deltaTime : Q) :
  splines (dispose l) = [] /\
  (forall nm, getSplineByName (dispose l) nm = None) /\
  snd (update (dispose l) deltaTime) = Returned /\
  currentTime (fst (update (dispose l) deltaTime)) = currentTime (fst (update l deltaTime)) /\
  isPlaying (fst (update (dispose l) deltaTime)) = isPlaying (fst (update l deltaTime)).
Proof.
  split; [reflexivity|]. split; [reflexivity|].
  unfold update, dispose; simpl.
  repeat match goal with
         | |- context [if ?b then _ else _] => destruct b
         end;
    rewrite ?updateSplines_eq; simpl; (split; [|split]; reflexivity).
Qed.

(** ** Parsing a payload *)

Lemma maxFrameOver_app (mf : Q) (fs1 fs2 : list Frame) :
  maxFrameOver (maxFrameOver mf fs1) fs2 = maxFrameOver mf (fs1 ++ fs2).
Proof. unfold maxFrameOver. rewrite fold_left_app. reflexivity. Qed.

Lemma maxFrameOver_spec (mf : Q) (fs : list Frame) :
  mf <= maxFrameOver mf fs /\
  (forall f, In f fs -> inject_Z (frame f) <= maxFrameOver mf fs) /\
  (maxFrameOver mf fs = mf \/ exists f, In f fs /\ maxFrameOver mf fs = inject_Z (frame f)).
Proof.
  revert mf. induction fs as [|f rest IH]; intro mf.
  - split; [apply Qle_refl|]. split; [intros _ []|]. left; reflexivity.
  - unfold maxFrameOver in *; cbn [fold_left In].
    destruct (IH (Qmax mf (inject_Z (frame f)))) as [H1 [H2 H3]].
    split; [|split].
    + eapply Qle_trans; [apply Q.le_max_l|exact H1].
    + intros g [<-|Hg]; [|auto].
      eapply Qle_trans; [apply Q.le_max_r|exact H1].
    + destruct H3 as [H3|[g [Hg H3]]]; [|right; exists g; auto].
      rewrite H3. unfold Qmax, GenericMinMax.gmax.
      destruct (mf ?= inject_Z (frame f));
        first [left; reflexivity | right; exists f; split; [left|]; reflexivity].
Qed.

Lemma parseSplines_returned (m : Metadata) (sds : list SplineData) (acc : list Spline)
      (mf : Q) (ss : list Spline) (mf' : Q) :
  parseSplines m sds acc mf = (ss, mf', Returned) ->
  exists ss', ss = acc ++ ss' /\
    Forall2 (fun sd s => updateSplineGeometry m (initialSpline m sd) 0 = Ok s) sds ss' /\
    mf' = maxFrameOver mf (flat_map inFrames sds).
Proof.
  revert acc mf. induction sds as [|sd rest IH]; intros acc mf H; simpl in H.
  - injection H as <- <-. exists []. rewrite app_nil_r.
    split; [reflexivity|]. split; [constructor|reflexivity].
  - destruct (updateSplineGeometry m (initialSpline m sd) 0) as [s|e] eqn:E;
      [|discriminate].
    destruct (IH _ _ H) as [ss' [H1 [H2 H3]]].
    exists (s :: ss'). subst ss. rewrite <- app_assoc.
    split; [reflexivity|]. split; [constructor; assumption|].
    rewrite H3. apply maxFrameOver_app.
Qed.

Lemma parseSplines_threw (m : Metadata) (sds : list SplineData) (acc : list Spline)
      (mf : Q) (ss : list Spline) (mf' : Q) (e : JsError) :
  parseSplines m sds acc mf = (ss, mf', Threw e) ->
  exists pre sd post ss', sds = pre ++ sd :: post /\ ss = acc ++ ss' /\
    Forall2 (fun sd s => updateSplineGeometry m (initialSpline m sd) 0 = Ok s) pre ss' /\
    updateSplineGeometry m (initialSpline m sd) 0 = Err e.
Proof.
  revert acc mf. induction sds as [|sd rest IH]; intros acc mf H; simpl in H;
    [discriminate|].
  destruct (updateSplineGeometry m (initialSpline m sd) 0) as [s|e'] eqn:E.
  - destruct (IH _ _ H) as [pre [sd' [post [ss' [H1 [H2 [H3 H4]]]]]]].
    exists (sd :: pre), sd', post, (s :: ss'). subst rest ss.
    rewrite <- app_assoc.
    split; [reflexivity|]. split; [reflexivity|].
    split; [constructor; assumption|exact H4].
  - injection H as <- <- <-. exists [], sd, rest, []. rewrite app_nil_r.
    split; [reflexivity|]. split; [reflexivity|]. split; [constructor|exact E].
Qed.

(** When [parseSplineData(data)] returns, [this.splines] holds one spline
    per entry of [data.splines], in order, each with the geometry of time
    [0]; [this.duration] is [maxFrame / frameRate] where [maxFrame] is the
    largest of [0] and every keyframe number; the playback fields are
    untouched. *)
Theorem parseSplineData_returned (l : Loader) (data : SplineAsset) (sds : list SplineData)
  (Hs : assetSplines data = Some sds)
  (Hr : snd (parseSplineData l data) = Returned) :
  let l' := fst (parseSplineData l data) in
  let m := metadataOf data in
  Forall2 (fun sd s => updateSplineGeometry m (initialSpline m sd) 0 = Ok s) sds (splines l') /\
  metadata l' = m /\
  (exists maxFrame, duration l' = maxFrame / frameRateOf m /\ 0 <= maxFrame /\
     (forall sd f, In sd sds -> In f (inFrames sd) -> inject_Z (frame f) <= maxFrame) /\
     (maxFrame = 0 \/
      exists sd f, In sd sds /\ In f (inFrames sd) /\ maxFrame = inject_Z (frame f))) /\
  currentTime l' = currentTime l /\ isPlaying l' = isPlaying l /\
  loop l' = loop l /\ speed l' = speed l.
Proof.
  intros l' m. unfold l', m. clear l' m.
  unfold parseSplineData in *. cbv zeta in *. rewrite Hs in *.
  destruct (parseSplines (metadataOf data) sds [] 0) as [[ss mf] o] eqn:E.
  destruct o as [|e]; [|discriminate Hr].
  apply parseSplines_returned in E as [ss' [H1 [H2 H3]]]. simpl in H1. subst ss.
  simpl. split; [exact H2|]. split; [reflexivity|].
  split; [|repeat split].
  exists mf. destruct (maxFrameOver_spec 0 (flat_map inFrames sds)) as [A [B C]].
  rewrite <- H3 in A, B, C.
  split; [reflexivity|]. split; [exact A|]. split.
  - intros sd f Hsd Hf. apply B. apply in_flat_map. eauto.
  - destruct C as [C|[f [Hf C]]]; [left; exact C|right].
    apply in_flat_map in Hf as [sd [Hsd Hf]]. exists sd, f. auto.
Qed.

Lemma parseSplineData_returned_witness :
  Forall2 (fun sd s => updateSplineGeometry defaultMeta (initialSpline defaultMeta sd) 0 = Ok s)
    [mkSplineData "empty" []; mkSplineData "moving" [mkFrame 0 None (Some [origin]);
                                                    mkFrame 60 None (Some [mkPoint3 1 0 0])]]
    (splines (fst (parseSplineData bareLoader sampleAsset))).
Proof.
  pose proof (parseSplineData_returned bareLoader sampleAsset _ eq_refl
                ltac:(vm_compute; reflexivity)) as H.
  cbv zeta in H. destruct H as [H _]. exact H.
Defined.

(** When an initial geometry throws, [parseSplineData] stops there: the
    splines before the failing entry stay in [this.splines], the failing
    one and the rest are not added, and [this.duration] keeps its old
    value. *)
Theorem parseSplineData_threw_keeps_prefix (l : Loader) (data : SplineAsset)
  (sds : list SplineData) (e : JsError)
  (Hs : assetSplines data = Some sds)
  (Ht : snd (parseSplineData l data) = Threw e) :
  let l' := fst (parseSplineData l data) in
  let m := metadataOf data in
  exists pre sd post, sds = pre ++ sd :: post /\
    Forall2 (fun sd s => updateSplineGeometry m (initialSpline m sd) 0 = Ok s) pre (splines l') /\
    updateSplineGeometry m (initialSpline m sd) 0 = Err e /\
    duration l' = duration l /\ metadata l' = m.
Proof.
  intros l' m. unfold l', m. clear l' m.
  unfold parseSplineData in *. cbv zeta in *. rewrite Hs in *.
  destruct (parseSplines (metadataOf data) sds [] 0) as [[ss mf] o] eqn:E.
  destruct o as [|e']; [discriminate Ht|]. simpl in Ht. injection Ht as <-.
  apply parseSplines_threw in E as [pre [sd [post [ss' [H1 [H2 [H3 H4]]]]]]].
  simpl in H2. subst ss. exists pre, sd, post. simpl.
  split; [exact H1|]. split; [exact H3|]. split; [exact H4|]. split; reflexivity.
Qed.

Lemma parseSplineData_threw_keeps_prefix_witness :
  duration (fst (parseSplineData bareLoader brokenAsset)) = duration bareLoader.
Proof.
  destruct (parseSplineData_threw_keeps_prefix bareLoader brokenAsset _ _ eq_refl
              ltac:(vm_compute; reflexivity)) as [pre [sd [post [_ [_ [_ [H _]]]]]]].
  exact H.
Defined.



(** ** Interpolation results *)

Lemma truthyZ_nonzero (o : option Z) (k : Z) : truthyZ o = Some k -> k <> 0%Z.
Proof.
  destruct o as [k'|]; simpl; [|discriminate].
  destruct (Z.eqb_spec k' 0); intro H; [discriminate|]. injection H as <-. assumption.
Qed.

Lemma interpolateCurvePairs_index (cs : list (Curve * Curve)) (i : nat) (t : Q) :
  Forall (fun c => exists k, splineIndex c = Some k /\ k <> 0%Z)
         (interpolateCurvePairs cs i t) /\
  (List.length (interpolateCurvePairs cs i t) <= List.length cs)%nat.
Proof.
  revert i. induction cs as [|[c1 c2] rest IH]; intro i; simpl.
  - split; [constructor|lia].
  - destruct (IH (S i)) as [H1 H2].
    destruct (curvePoints c1), (curvePoints c2); simpl;
      try (split; [exact H1|lia]).
    split; [|lia]. constructor; [|exact H1].
    eexists; split; [reflexivity|].
    destruct (truthyZ (splineIndex c1)) eqn:E1; [eapply truthyZ_nonzero; eauto|].
    destruct (truthyZ (splineIndex c2)) eqn:E2; [eapply truthyZ_nonzero; eauto|lia].
Qed.

(** Every curve [interpolateBezierCurves] returns has a non-zero
    [splineIndex] ([curve1.splineIndex || curve2.splineIndex || i + 1]),
    and there are at most as many as the shorter of the two inputs. *)
Theorem interpolateBezierCurves_index_nonzero (curves1 curves2 : list Curve) (t : Q) :
  Forall (fun c => exists k, splineIndex c = Some k /\ k <> 0%Z)
         (interpolateBezierCurves curves1 curves2 t) /\
  (List.length (interpolateBezierCurves curves1 curves2 t)
     <= Nat.min (List.length curves1) (List.length curves2))%nat.
Proof.
  unfold interpolateBezierCurves.
  destruct (interpolateCurvePairs_index (combine curves1 curves2) 0 t) as [H1 H2].
  rewrite length_combine in H2. split; assumption.
Qed.

(** [interpolatePoints] returns [min(points1.length, points2.length)]
    points; at [t = 0] each is the point of [points1] at the same index,
    at [t = 1] the point of [points2]. *)
Theorem interpolatePoints_endpoints (p1 p2 : list Point3) (t : Q) :
  match interpolatePoints (Some p1) (Some p2) t with
  | Ok ps =>
      List.length ps = Nat.min (List.length p1) (List.length p2) /\
      forall i a b, nth_error p1 i = Some a -> nth_error p2 i = Some b ->
        exists c, nth_error ps i = Some c /\
          (t == 0 -> x c == x a /\ y c == y a /\ z c == z a) /\
          (t == 1 -> x c == x b /\ y c == y b /\ z c == z b)
  | Err _ => False
  end.
Proof.
  simpl. split.
  - rewrite length_map. apply length_combine.
  - intros i a b Ha Hb. rewrite nth_error_map, (nth_error_combine_some p1 p2 i a b Ha Hb).
    eexists; split; [reflexivity|]. unfold lerp3, lerp; simpl.
    split; intro Ht; rewrite Ht; (split; [|split]; ring).
Qed.

(** ** Glow materials *)

Lemma updateNth_in_range {A : Type} (f : A -> A) (k : nat) (l : list A) :
  (k < List.length l)%nat ->
  exists l', updateNth f k l = Some l' /\ List.length l' = List.length l /\
    forall j, nth_error l' j =
              if Nat.eqb j k then option_map f (nth_error l j) else nth_error l j.
Proof.
  revert k. induction l as [|a rest IH]; intros k Hk; simpl in Hk; [lia|].
  destruct k as [|k].
  - exists (f a :: rest). split; [reflexivity|]. split; [reflexivity|].
    intros [|j]; reflexivity.
  - destruct (IH k ltac:(lia)) as [l' [H1 [H2 H3]]].
    exists (a :: l'). simpl. rewrite H1. split; [reflexivity|]. split; [simpl; lia|].
    intros [|j]; [reflexivity|]. simpl. apply H3.
Qed.

Lemma MatRef_eq_dec (a b : MatRef) : {a = b} + {a <> b}.
Proof. decide equality. apply Nat.eq_dec. Defined.

Lemma forEachMaterial_valid (f : GlowMaterial -> GlowMaterial) (field : string)
  (Hf : forall a, f (f a) = f a) (insts : list MatRef) (g : list GlowMaterial) :
  Forall (fun r => exists k, r = GlowRef k /\ (k < List.length g)%nat) insts ->
  exists g', forEachMaterial f field insts g = (g', Returned) /\
    List.length g' = List.length g /\
    forall j, (In (GlowRef j) insts -> nth_error g' j = option_map f (nth_error g j)) /\
              (~ In (GlowRef j) insts -> nth_error g' j = nth_error g j).
Proof.
  revert g. induction insts as [|r rest IH]; intros g Hv.
  - exists g. split; [reflexivity|]. split; [reflexivity|].
    intro j. split; [intros []|reflexivity].
  - inversion Hv as [|? ? [k [-> Hk]] Hrest]; subst.
    destruct (updateNth_in_range f k g Hk) as [g1 [U1 [L1 N1]]].
    destruct (IH g1) as [g' [E' [L' N']]].
    { eapply Forall_impl; [|exact Hrest]. intros r [k' [-> Hk']].
      exists k'. rewrite L1. auto. }
    exists g'. simpl. rewrite U1. split; [exact E'|]. split; [congruence|].
    intro j. destruct (N' j) as [Nin Nout]. rewrite N1 in Nin, Nout.
    destruct (Nat.eq_dec j k) as [->|Hjk].
    + rewrite Nat.eqb_refl in Nin, Nout. split.
      * intros _. destruct (in_dec MatRef_eq_dec (GlowRef k) rest) as [Hin|Hnin].
        -- rewrite (Nin Hin). destruct (nth_error g k); simpl; [rewrite Hf|]; reflexivity.
        -- exact (Nout Hnin).
      * intro Hn. exfalso. apply Hn. left. reflexivity.
    + rewrite (proj2 (Nat.eqb_neq j k) Hjk) in Nin, Nout. split.
      * intros [Heq|Hin]; [injection Heq as Heq; congruence|exact (Nin Hin)].
      * intro Hn. apply Nout. intro Hin. apply Hn. right. exact Hin.
Qed.

Lemma getRandomGlowingMaterial_in_range (st : MaterialStore) (random : Q) :
  0 <= random < 1 -> glowing st <> [] ->
  exists k, getRandomGlowingMaterial st random = GlowRef k /\
            (k < List.length (glowing st))%nat.
Proof.
  intros [H0 H1] Hg. unfold getRandomGlowingMaterial.
  set (n := Z.of_nat (List.length (glowing st))).
  assert (Hn : (0 < n)%Z) by (unfold n; destruct (glowing st); [congruence|simpl; lia]).
  assert (Hn' : 0 < inject_Z n) by (change 0 with (inject_Z 0); rewrite <- Zlt_Qlt; exact Hn).
  set (r := random * inject_Z n).
  assert (Hr0 : 0 <= r) by (unfold r; nra).
  assert (Hr1 : r < inject_Z n) by (unfold r; nra).
  pose proof (Qfloor_le r) as F1. pose proof (Qlt_floor r) as F2.
  assert (Z0 : (0 <= Qfloor r)%Z).
  { destruct (Z.le_gt_cases 0 (Qfloor r)) as [|Hlt]; [assumption|].
    assert (inject_Z (Qfloor r + 1) <= 0)
      by (change 0 with (inject_Z 0); rewrite <- Zle_Qle; lia).
    lra. }
  assert (Z1 : (Qfloor r < n)%Z) by (rewrite Zlt_Qlt; lra).
  rewrite (proj2 (Z.leb_le _ _) Z0), (proj2 (Z.ltb_lt _ _) Z1). simpl.
  exists (Z.to_nat (Qfloor r)). split; [reflexivity|]. unfold n in Z1. lia.
Qed.

(** [applyMaterials(child)] with [Math.random()] in [[0, 1)] and a
    non-empty palette: a mesh gets one of the glowing materials and that
    same material is appended to [materialInstances], so the registry only
    ever holds glowing materials; any other child is left alone. *)
Theorem applyMaterials_registers (st : MaterialStore) (random : Q) (child : Child)
  (Hv : validInstances st) (Hr : 0 <= random < 1) (Hg : glowing st <> []) :
  let st' := fst (applyMaterials st random child) in
  let child' := snd (applyMaterials st random child) in
  validInstances st' /\ glowing st' = glowing st /\
  (isMesh child = false -> st' = st /\ child' = child) /\
  (isMesh child = true ->
     exists k, (k < List.length (glowing st))%nat /\ childMaterial child' = GlowRef k /\
               materialInstances st' = materialInstances st ++ [GlowRef k]).
Proof.
  intros st' child'. unfold st', child', applyMaterials. clear st' child'.
  destruct (isMesh child) eqn:E; simpl.
  - destruct (getRandomGlowingMaterial_in_range st random Hr Hg) as [k [Hk Hlt]].
    rewrite Hk. split; [|split; [reflexivity|split; [discriminate|]]].
    + unfold validInstances in *. simpl. apply Forall_app. split; [exact Hv|].
      constructor; [exists k; auto|constructor].
    + intros _. exists k. auto.
  - split; [exact Hv|]. split; [reflexivity|]. split; [auto|discriminate].
Qed.

Lemma applyMaterials_registers_witness :
  validInstances (fst (applyMaterials sampleStore (1 # 2) (mkChild true OwnMaterial))).
Proof.
  assert (Hv : validInstances sampleStore).
  { repeat constructor; eexists; split; try reflexivity; simpl; lia. }
  destruct (applyMaterials_registers sampleStore (1 # 2) (mkChild true OwnMaterial) Hv
              ltac:(split; lra) ltac:(discriminate)) as [H _].
  exact H.
Defined.

(** [updateMaterialGlow(threshold, strength, radius)] on a registry of
    glowing materials returns normally, keeps the palette's size, sets the
    emissive intensity of every registered material to
    [Math.max(2.0, strength * 2.0)] (never below [2]) and leaves its colour
    and opacity, and every material nobody registered, as they were. *)
Theorem updateMaterialGlow_registered (st : MaterialStore) (threshold strength radius : Q)
  (Hv : validInstances st) :
  let r := updateMaterialGlow st threshold strength radius in
  snd r = Returned /\
  List.length (glowing (fst r)) = List.length (glowing st) /\
  forall k mat, nth_error (glowing st) k = Some mat ->
    (In (GlowRef k) (materialInstances st) ->
       nth_error (glowing (fst r)) k
         = Some (mkGlowMaterial (color mat) (Qmax 2 (strength * 2)) (opacity mat)) /\
       2 <= Qmax 2 (strength * 2)) /\
    (~ In (GlowRef k) (materialInstances st) -> nth_error (glowing (fst r)) k = Some mat).
Proof.
  intro r. unfold r, updateMaterialGlow. clear r.
  destruct (forEachMaterial_valid (setEmissive (Qmax 2 (strength * 2))) "emissiveIntensity"
              (fun a => eq_refl) (materialInstances st) (glowing st) Hv)
    as [g' [E [L N]]].
  rewrite E. simpl. split; [reflexivity|]. split; [exact L|].
  intros k mat Hk. destruct (N k) as [Nin Nout]. rewrite Hk in Nin, Nout. split.
  - intro Hin. split; [exact (Nin Hin)|apply Q.le_max_l].
  - exact Nout.
Qed.

Lemma updateMaterialGlow_registered_witness :
  snd (updateMaterialGlow sampleStore 0 3 0) = Returned.
Proof.
  assert (Hv : validInstances sampleStore).
  { repeat constructor; eexists; split; try reflexivity; simpl; lia. }
  destruct (updateMaterialGlow_registered sampleStore 0 3 0 Hv) as [H _]. exact H.
Defined.

(** [updateMaterialOpacity(opacity)] on a registry of glowing materials
    returns normally, sets the opacity of every registered material and
    leaves the other materials as they were. *)
Theorem updateMaterialOpacity_registered (st : MaterialStore) (o : Q)
  (Hv : validInstances st) :
  let r := updateMaterialOpacity st o in
  snd r = Returned /\
  List.length (glowing (fst r)) = List.length (glowing st) /\
  forall k mat, nth_error (glowing st) k = Some mat ->
    (In (GlowRef k) (materialInstances st) ->
       nth_error (glowing (fst r)) k
         = Some (mkGlowMaterial (color mat) (emissiveIntensity mat) o)) /\
    (~ In (GlowRef k) (materialInstances st) -> nth_error (glowing (fst r)) k = Some mat).
Proof.
  intro r. unfold r, updateMaterialOpacity. clear r.
  destruct (forEachMaterial_valid (setOpacity o) "opacity"
              (fun a => eq_refl) (materialInstances st) (glowing st) Hv)
    as [g' [E [L N]]].
  rewrite E. simpl. split; [reflexivity|]. split; [exact L|].
  intros k mat Hk. destruct (N k) as [Nin Nout]. rewrite Hk in Nin, Nout.
  split; [exact Nin|exact Nout].
Qed.

Lemma updateMaterialOpacity_registered_witness :
  snd (updateMaterialOpacity sampleStore (1 # 2)) = Returned.
Proof.
  assert (Hv : validInstances sampleStore).
  { repeat constructor; eexists; split; try reflexivity; simpl; lia. }
  destruct (updateMaterialOpacity_registered sampleStore (1 # 2) Hv) as [H _]. exact H.
Defined.

(** ** Scroll-driven playback *)

Lemma clamp01_bounds (p : Q) : 0 <= Qmax 0 (Qmin 1 p) <= 1.
Proof.
  split; [apply Q.le_max_l|].
  apply Q.max_lub; [lra|apply Q.le_min_l].
Qed.

(** With an action, the scroll handler sets [action.time] inside
    [[0, clip duration]]: [0] at or above the top of the page, the full
    clip at or below the bottom.  (When the page is exactly one window high
    the handler divides by zero, which JavaScript does not clamp.) *)
Theorem onScroll_time_in_clip (scroll scrollHeight innerHeight clipDuration : Q)
  (Hh : innerHeight < scrollHeight) (Hc : 0 <= clipDuration) :
  exists t, onScrollActionTime true scroll scrollHeight innerHeight clipDuration = Some t /\
    0 <= t <= clipDuration /\
    (scroll <= 0 -> t == 0) /\
    (scrollHeight - innerHeight <= scroll -> t == clipDuration).
Proof.
  unfold onScrollActionTime; simpl. eexists; split; [reflexivity|].
  set (d := scrollHeight - innerHeight).
  assert (Hd : 0 < d) by (unfold d; lra).
  destruct (clamp01_bounds (scroll / d)) as [P0 P1].
  split.
  { set (p := Qmax 0 (Qmin 1 (scroll / d))) in *. idtac.
    split; [apply Qmult_le_0_compat; assumption|].
    assert (0 <= (1 - p) * clipDuration) by (apply Qmult_le_0_compat; lra). lra. }
  split; intro Hs.
  - assert (Hq : scroll / d <= 0).
    { apply Qle_shift_div_r; [exact Hd|]. lra. }
    rewrite (Q.min_r _ _ (Qle_trans _ _ 1 Hq ltac:(lra))), (Q.max_l _ _ Hq). ring.
  - assert (Hq : 1 <= scroll / d).
    { apply Qle_shift_div_l; [exact Hd|]. lra. }
    assert (H01 : 0 <= 1) by lra. rewrite (Q.min_l _ _ Hq), (Q.max_r _ _ H01). ring.
Qed.

Lemma onScroll_time_in_clip_witness :
  exists t, onScrollActionTime true 500 2000 1000 (5 # 2) = Some t /\ 0 <= t <= 5 # 2 /\
    (500 <= 0 -> t == 0) /\ (2000 - 1000 <= 500 -> t == 5 # 2).
Proof.
  apply (onScroll_time_in_clip 500 2000 1000 (5 # 2)); vm_compute; [reflexivity|discriminate].
Defined.

(** Scrolling further down never moves the animation back. *)
Theorem onScroll_monotone (s1 s2 scrollHeight innerHeight clipDuration t1 t2 : Q)
  (Hh : innerHeight < scrollHeight) (Hc : 0 <= clipDuration) (Hs : s1 <= s2)
  (H1 : onScrollActionTime true s1 scrollHeight innerHeight clipDuration = Some t1)
  (H2 : onScrollActionTime true s2 scrollHeight innerHeight clipDuration = Some t2) :
  t1 <= t2.
Proof.
  unfold onScrollActionTime in H1, H2; simpl in H1, H2.
  injection H1 as <-. injection H2 as <-.
  set (d := scrollHeight - innerHeight).
  assert (Hd : 0 < d) by (unfold d; lra).
  assert (Hq : s1 / d <= s2 / d).
  { unfold Qdiv. apply Qmult_le_compat_r; [exact Hs|].
    apply Qinv_le_0_compat. lra. }
  apply Qmult_le_compat_r; [|exact Hc].
  apply Q.max_le_compat_l. apply Q.min_le_compat_l. exact Hq.
Qed.

Lemma onScroll_monotone_witness :
  Qmax 0 (Qmin 1 (500 / (2000 - 1000))) * 1 <= Qmax 0 (Qmin 1 (1000 / (2000 - 1000))) * 1.
Proof.
  apply (onScroll_monotone 500 1000 2000 1000 1); try reflexivity; vm_compute; discriminate.
Defined.

(** [getProgress()] stays in [[0, 1]] as long as the time invariant
    [0 <= currentTime <= duration] holds (and is [0] for a zero
    duration). *)
Theorem getProgress_in_unit (l : Loader) (H : timeInRange l) :
  0 <= getProgress l <= 1.
Proof.
  destruct H as [H0 H1]. unfold getProgress.
  destruct (Qle_bool (duration l) 0) eqn:E; simpl; [lra|].
  assert (Hd : 0 < duration l).
  { apply Qnot_le_lt. intro Hc. apply Qle_bool_iff in Hc. congruence. }
  split.
  - apply Qle_shift_div_l; [exact Hd|]. lra.
  - apply Qle_shift_div_r; [exact Hd|]. lra.
Qed.

Lemma getProgress_in_unit_witness :
  0 <= getProgress (playingLoader 3 10 true 1) <= 1.
Proof.
  apply getProgress_in_unit. unfold timeInRange; simpl. split; lra.
Defined.
